(** * Sample-size estimator: [src/scripts/estimate_required_images.py]

    A shallow embedding of the estimator script and of the pieces of the
    Python runtime it calls, followed by the properties of its
    specification.

    Numbers.  Python's [float] is modelled by the real numbers [R]: every
    arithmetic operation is exact, and there is neither NaN nor an
    infinity.  Python's [int] is [Z].  Text is [string], one character
    per code point below 256. *)

From Stdlib Require Import Reals Lra Lia ZArith QArith Qreals.
From Stdlib Require Import String Ascii List Bool.
Import ListNotations.

Local Open Scope R_scope.

(** ** Exceptions and results *)

(** One constructor per [raise] site of the script (the message is the
    one in the source), plus the two exceptions that the runtime
    functions it calls can raise. *)
Inductive exn : Type :=
| ValueError_pair (chunk : string)
    (* "Expected name:value pair, got '{chunk}'" *)
| ValueError_float (value : string)
    (* raised by float(value) *)
| ValueError_unpack
    (* tuple unpacking of a list that has not two items *)
| ValueError_no_pairs
    (* "At least one class:value pair is required." *)
| ValueError_confidence
    (* "confidence must be in (0, 1)" *)
| ValueError_margin
    (* "margin must be in (0, 1)" *)
| ValueError_base_rate
    (* "base_rate must be in (0, 1)" *)
| ValueError_boxes
    (* "boxes must be positive" *)
| ValueError_math_domain
    (* math.sqrt of a negative number *)
| ValueError_max_empty
    (* max() of an empty sequence *)
| StatisticsError_p
    (* "p must be in the range 0.0 < p < 1.0" *)
| SystemExit_percentage
    (* "confidence percentage must be less than 100." *)
| SystemExit_boxes_per_image (name : string).
    (* "boxes_per_image for {name} must be positive." *)

Inductive result (A : Type) : Type :=
| Ok (a : A)
| Raise (e : exn).

Arguments Ok {A} a.
Arguments Raise {A} e.

Definition bind {A B : Type} (r : result A) (k : A -> result B) : result B :=
  match r with
  | Ok a => k a
  | Raise e => Raise e
  end.

Notation "x <- r ;; k" := (bind r (fun x => k))
  (at level 61, r at next level, right associativity).

Definition raises {A : Type} (r : result A) : Prop :=
  exists e, r = Raise e.

(** ** Comparisons on floats *)

Definition ltb (x y : R) : bool := if Rlt_dec x y then true else false.
Definition leb (x y : R) : bool := if Rle_dec x y then true else false.

(** [0 < x < 1], the chained comparison of the source. *)
Definition in_unit (x : R) : bool := ltb 0 x && ltb x 1.

(** ** The numeric functions of the script *)

(** [math.sqrt]: a domain error below zero. *)
Definition math_sqrt (x : R) : result R :=
  if ltb x 0 then Raise ValueError_math_domain else Ok (sqrt x).

(** [required_boxes], lines 35-41.  The divisor [margin**2] is not zero
    past the first guard. *)
Definition required_boxes (z margin base_rate : R) : result R :=
  if negb (in_unit margin) then Raise ValueError_margin
  else if negb (in_unit base_rate) then Raise ValueError_base_rate
  else Ok ((z ^ 2 * base_rate * (1 - base_rate)) / (margin ^ 2)).

(** [margin_from_boxes], lines 44-47.  The divisor [boxes] is positive
    past the guard. *)
Definition margin_from_boxes (z base_rate boxes : R) : result R :=
  if leb boxes 0 then Raise ValueError_boxes
  else
    s <- math_sqrt (base_rate * (1 - base_rate) / boxes) ;;
    Ok (z * s).


(** ** Strings *)

Local Open Scope string_scope.

(** [str.isspace] for one character, on the code points below 256:
    TAB..CR, FS..US, SPACE, NEL and NBSP. *)
Definition isspace (c : ascii) : bool :=
  let n := nat_of_ascii c in
  ((9 <=? n) && (n <=? 13) || (28 <=? n) && (n <=? 32)
   || (n =? 133) || (n =? 160))%nat.

Fixpoint lstrip (s : string) : string :=
  match s with
  | String c s' => if isspace c then lstrip s' else s
  | EmptyString => EmptyString
  end.

Fixpoint rstrip (s : string) : string :=
  match s with
  | EmptyString => EmptyString
  | String c s' =>
      match rstrip s' with
      | EmptyString => if isspace c then EmptyString else String c EmptyString
      | t => String c t
      end
  end.

(** [s.strip()] *)
Definition strip (s : string) : string := rstrip (lstrip s).

(** [s.split(sep)] for a separator of one character. *)
Fixpoint split (sep : ascii) (s : string) : list string :=
  match s with
  | EmptyString => [EmptyString]
  | String c s' =>
      if Ascii.eqb c sep then EmptyString :: split sep s'
      else match split sep s' with
           | h :: t => String c h :: t
           | [] => [String c EmptyString]
           end
  end.

(** [s.split(sep, maxsplit=1)] *)
Fixpoint split1 (sep : ascii) (s : string) : list string :=
  match s with
  | EmptyString => [EmptyString]
  | String c s' =>
      if Ascii.eqb c sep then [EmptyString; s']
      else match split1 sep s' with
           | h :: t => String c h :: t
           | [] => [String c EmptyString]
           end
  end.

(** [sep in s] *)
Fixpoint contains (sep : ascii) (s : string) : bool :=
  match s with
  | EmptyString => false
  | String c s' => Ascii.eqb c sep || contains sep s'
  end.

(** Truth value of a string: [not s] is [negb (truthy s)]. *)
Definition truthy (s : string) : bool :=
  match s with EmptyString => false | _ => true end.

(** ** Dictionaries

    A Python [dict] keeps its keys in insertion order, and the loops of
    [main] walk [items()] in that order: an association list with
    distinct keys.  Assigning to a key that is present replaces the value
    where the key stands; a new key goes to the end. *)

Definition dict (V : Type) : Type := list (string * V).

Fixpoint dict_set {V : Type} (d : dict V) (k : string) (v : V) : dict V :=
  match d with
  | [] => [(k, v)]
  | (k', v') :: d' =>
      if String.eqb k' k then (k', v) :: d'
      else (k', v') :: dict_set d' k v
  end.

Fixpoint dict_get {V : Type} (d : dict V) (k : string) : option V :=
  match d with
  | [] => None
  | (k', v') :: d' => if String.eqb k' k then Some v' else dict_get d' k
  end.

Definition keys {V : Type} (d : dict V) : list string := map fst d.
Definition values {V : Type} (d : dict V) : list V := map snd d.

(** ** Parsing the class specification *)

Section Parsing.

(** The builtin [float] applied to a string: [None] stands for its
    [ValueError]. *)
Variable float : string -> option R.

(** The body of the [for] loop of [parse_class_boxes], lines 15-22,
    over the chunks that remain. *)
Fixpoint parse_chunks (chunks : list string) (entries : dict R)
  : result (dict R) :=
  match chunks with
  | [] => Ok entries
  | chunk :: rest =>
      let chunk := strip chunk in
      if negb (truthy chunk) then parse_chunks rest entries
      else if negb (contains ":" chunk) then Raise (ValueError_pair chunk)
      else
        match split1 ":" chunk with
        | [name; value] =>
            match float value with
            | Some v => parse_chunks rest (dict_set entries (strip name) v)
            | None => Raise (ValueError_float value)
            end
        | _ => Raise ValueError_unpack
        end
  end.

(** [parse_class_boxes], lines 12-25. *)
Definition parse_class_boxes (raw : string) : result (dict R) :=
  entries <- parse_chunks (split "," raw) [] ;;
  match entries with
  | [] => Raise ValueError_no_pairs
  | _ => Ok entries
  end.

End Parsing.

(** ** The builtin [float] on decimal literals

    [float] strips white space and reads
    [[sign] number [exponent]] with
    [number ::= [digitpart] "." digitpart | digitpart ["."]],
    [digitpart ::= digit (["_"] digit)*] and
    [exponent ::= ("e" | "E") [sign] digitpart].
    The literal denotes a rational number, which the model keeps as it
    is.  The spellings [inf], [infinity] and [nan], which denote no real
    number, are not read. *)

Definition is_digit (c : ascii) : bool :=
  let n := nat_of_ascii c in ((48 <=? n) && (n <=? 57))%nat.

Definition digit_val (c : ascii) : Z := Z.of_nat (nat_of_ascii c - 48).

(** The rest of a digitpart, after its first digit: the value read so
    far, the number of digits read so far, and what is left. *)
Fixpoint digits_rest (s : string) (acc : Z) (n : nat) : Z * nat * string :=
  match s with
  | String c s' =>
      if is_digit c then digits_rest s' (10 * acc + digit_val c)%Z (S n)
      else if Ascii.eqb c "_" then
        match s' with
        | String d s'' =>
            if is_digit d
            then digits_rest s'' (10 * acc + digit_val d)%Z (S n)
            else (acc, n, s)
        | EmptyString => (acc, n, s)
        end
      else (acc, n, s)
  | EmptyString => (acc, n, s)
  end.

Definition digitpart (s : string) (acc : Z) : option (Z * nat * string) :=
  match s with
  | String c s' =>
      if is_digit c then Some (digits_rest s' (10 * acc + digit_val c)%Z 1%nat)
      else None
  | EmptyString => None
  end.

(** An optional sign: [true] for a minus. *)
Definition sign (s : string) : bool * string :=
  match s with
  | String "+" s' => (false, s')
  | String "-" s' => (true, s')
  | _ => (false, s)
  end.

(** [number]: the digits as an integer, and how many of them stand
    after the point. *)
Definition number (s : string) : option (Z * nat * string) :=
  match digitpart s 0 with
  | Some (m, _, String "." s') =>
      match digitpart s' m with
      | Some (m', f, rest) => Some (m', f, rest)
      | None => Some (m, 0%nat, s')
      end
  | Some (m, _, rest) => Some (m, 0%nat, rest)
  | None =>
      match s with
      | String "." s' => digitpart s' 0
      | _ => None
      end
  end.

(** [exponent], or nothing. *)
Definition exponent (s : string) : option (Z * string) :=
  match s with
  | String c s' =>
      if Ascii.eqb c "e" || Ascii.eqb c "E" then
        let (neg, s'') := sign s' in
        match digitpart s'' 0 with
        | Some (e, _, rest) => Some (if neg then (- e)%Z else e, rest)
        | None => None
        end
      else Some (0%Z, s)
  | EmptyString => Some (0%Z, s)
  end.

(** m * 10^e as a rational. *)
Definition scale10 (m e : Z) : Q :=
  match e with
  | Zneg k => Qmake m (Pos.pow 10 k)
  | _ => Qmake (m * 10 ^ e) 1
  end.

Definition float_literal (s : string) : option Q :=
  let (neg, s1) := sign (strip s) in
  match number s1 with
  | Some (m, f, s2) =>
      match exponent s2 with
      | Some (e, EmptyString) =>
          Some (scale10 (if neg then (- m)%Z else m) (e - Z.of_nat f))
      | _ => None
      end
  | None => None
  end.

Definition py_float (s : string) : option R :=
  option_map Q2R (float_literal s).

(** ** [statistics.NormalDist.inv_cdf]

    The function of the Python standard library that [z_score] calls
    (Wichura's algorithm AS241), for the standard normal distribution
    [NormalDist()], whose [mu] is 0 and whose [sigma] is 1. *)

(** [_normal_dist_inv_cdf].  Its caller has checked [0 < p < 1], so that
    in the tails [r] lies in (0, 0.075]: the logarithm is defined and
    negative.  Every denominator is a polynomial with positive
    coefficients and constant term 1 at a non-negative point. *)
Definition normal_dist_inv_cdf (p mu sigma : R) : R :=
  let q := p - 0.5 in
  if leb (Rabs q) 0.425 then
    let r := 0.180625 - q * q in
    let num := (((((((2.5090809287301226727e+3 * r +
                      3.3430575583588128105e+4) * r +
                      6.7265770927008700853e+4) * r +
                      4.5921953931549871457e+4) * r +
                      1.3731693765509461125e+4) * r +
                      1.9715909503065514427e+3) * r +
                      1.3314166789178437745e+2) * r +
                      3.3871328727963666080e+0) * q in
    let den := (((((((5.2264952788528545610e+3 * r +
                      2.8729085735721942674e+4) * r +
                      3.9307895800092710610e+4) * r +
                      2.1213794301586595867e+4) * r +
                      5.3941960214247511077e+3) * r +
                      6.8718700749205790830e+2) * r +
                      4.2313330701600911252e+1) * r +
                      1.0) in
    let x := num / den in
    mu + (x * sigma)
  else
    let r := if leb q 0.0 then p else 1.0 - p in
    let r := sqrt (- ln r) in
    let x :=
      if leb r 5.0 then
        let r := r - 1.6 in
        let num := (((((((7.74545014278341407640e-4 * r +
                          2.27238449892691845833e-2) * r +
                          2.41780725177450611770e-1) * r +
                          1.27045825245236838258e+0) * r +
                          3.64784832476320460504e+0) * r +
                          5.76949722146069140550e+0) * r +
                          4.63033784615654529590e+0) * r +
                          1.42343711074968357734e+0) in
        let den := (((((((1.05075007164441684324e-9 * r +
                          5.47593808499534494600e-4) * r +
                          1.51986665636164571966e-2) * r +
                          1.48103976427480074590e-1) * r +
                          6.89767334985100004550e-1) * r +
                          1.67638483018380384940e+0) * r +
                          2.05319162663775882187e+0) * r +
                          1.0) in
        num / den
      else
        let r := r - 5.0 in
        let num := (((((((2.01033439929228813265e-7 * r +
                          2.71155556874348757815e-5) * r +
                          1.24266094738807843860e-3) * r +
                          2.65321895265761230930e-2) * r +
                          2.96560571828504891230e-1) * r +
                          1.78482653991729133580e+0) * r +
                          5.46378491116411436990e+0) * r +
                          6.65790464350110377720e+0) in
        let den := (((((((2.04426310338993978564e-15 * r +
                          1.42151175831644588870e-7) * r +
                          1.84631831751005468180e-5) * r +
                          7.86869131145613259100e-4) * r +
                          1.48753612908506148525e-2) * r +
                          1.36929880922735805310e-1) * r +
                          5.99832206555887937690e-1) * r +
                          1.0) in
        num / den in
    let x := if ltb q 0.0 then - x else x in
    mu + (x * sigma).

(** [NormalDist().inv_cdf(p)]; the test on [sigma], which is 1, never
    fires. *)
Definition inv_cdf (p : R) : result R :=
  if leb p 0.0 || leb 1.0 p then Raise StatisticsError_p
  else Ok (normal_dist_inv_cdf p 0.0 1.0).

(** [z_score], lines 28-32. *)
Definition z_score (confidence : R) : result R :=
  if negb (in_unit confidence) then Raise ValueError_confidence
  else inv_cdf (0.5 + confidence / 2.0).

(** ** The command line and the report *)

(** What [parse_args] returns: the options after [argparse] has applied
    [type=float] and [type=int]; [current_images] is [None] when the
    option is absent. *)
Record Namespace : Type := {
  class_boxes : string;
  confidence : R;
  margin : R;
  base_rate : R;
  current_images : option Z
}.

(** One constructor per [print] of [main], with the values that the
    format string lays out. *)
Inductive line : Type :=
| TargetLine (margin confidence z base_rate : R)
| RequiredBoxesLine (boxes : Z)
| ImagesHeaderLine
| ClassCountLine (name : string) (count : Z)
| RecommendedLine (images : Z)
| BlankLine
| WithImagesLine (images : Z)
| MarginLine (name : string) (margin boxes : R).

(** A computation that prints and may raise: from the lines printed so
    far to the lines printed when it stops, with its outcome. *)
Definition io (A : Type) : Type := list line -> list line * result A.

Definition io_ret {A : Type} (a : A) : io A := fun out => (out, Ok a).

Definition io_bind {A B : Type} (m : io A) (k : A -> io B) : io B :=
  fun out =>
    match m out with
    | (out', Ok a) => k a out'
    | (out', Raise e) => (out', Raise e)
    end.

Definition lift {A : Type} (r : result A) : io A := fun out => (out, r).

Definition print (l : line) : io unit := fun out => (out ++ [l], Ok tt)%list.

Notation "x <~ m ;; k" := (io_bind m (fun x => k))
  (at level 61, m at next level, right associativity).
Notation "m ;;; k" := (io_bind m (fun _ => k))
  (at level 61, right associativity).

Fixpoint for_each {A : Type} (xs : list A) (body : A -> io unit) : io unit :=
  match xs with
  | [] => io_ret tt
  | x :: xs' => body x ;;; for_each xs' body
  end.

(** [max] of a sequence of integers. *)
Definition py_max (xs : list Z) : result Z :=
  match xs with
  | [] => Raise ValueError_max_empty
  | x :: xs' => Ok (fold_left Z.max xs' x)
  end.

(** Lines 98-102 of [main]: a confidence above 1 is a percentage. *)
Definition normalize_confidence (confidence : R) : result R :=
  if ltb 1 confidence then
    if leb 100 confidence then Raise SystemExit_percentage
    else Ok (confidence / 100.0)
  else Ok confidence.

(** Lines 107-110 of [main]: the loop that fills [per_class].  The
    divisor is positive past the guard. *)
Fixpoint images_per_class (boxes_needed : R) (items : list (string * R))
    (per_class : dict Z) : result (dict Z) :=
  match items with
  | [] => Ok per_class
  | (name, boxes_per_image) :: rest =>
      if leb boxes_per_image 0 then Raise (SystemExit_boxes_per_image name)
      else images_per_class boxes_needed rest
             (dict_set per_class name (Zceil (boxes_needed / boxes_per_image)))
  end.

(** Truth value of [args.current_images]: [None] and 0 are false. *)
Definition truthy_int (n : option Z) : option Z :=
  match n with
  | Some 0%Z => None
  | _ => n
  end.

(** Lines 123-132 of [main]: the margins that the current images reach.
    The option is read by its truth value. *)
Definition current_margins (args : Namespace) (classes : dict R) (z : R)
  : io unit :=
  match truthy_int (current_images args) with
  | Some n =>
      print BlankLine ;;;
      print (WithImagesLine n) ;;;
      for_each classes (fun '(name, boxes_per_image) =>
        let boxes := IZR n * boxes_per_image in
        margin <~ lift (margin_from_boxes z (base_rate args) boxes) ;;
        print (MarginLine name margin boxes))
  | None => io_ret tt
  end.

Section Main.

Variable float : string -> option R.

(** [main], lines 95-132, from the parsed command line. *)
Definition main (args : Namespace) : io unit :=
  classes <~ lift (parse_class_boxes float (class_boxes args)) ;;
  confidence <~ lift (normalize_confidence (confidence args)) ;;
  z <~ lift (z_score confidence) ;;
  boxes_needed <~ lift (required_boxes z (margin args) (base_rate args)) ;;
  per_class <~ lift (images_per_class boxes_needed classes []) ;;
  recommended <~ lift (py_max (values per_class)) ;;
  print (TargetLine (margin args) confidence z (base_rate args)) ;;;
  print (RequiredBoxesLine (Zceil boxes_needed)) ;;;
  print ImagesHeaderLine ;;;
  for_each per_class (fun '(name, count) =>
    print (ClassCountLine name count)) ;;;
  print (RecommendedLine recommended) ;;;
  current_margins args classes z.

(** A run of the script: what it printed and how it ended. *)
Definition run (args : Namespace) : list line * result unit :=
  main args [].

End Main.

(** ** Reading the specification of the parser

    The words of the specification, chunk by chunk, for the comparison
    with [parse_class_boxes]. *)

(** What stands before the first [sep], and what stands after it. *)
Fixpoint before (sep : ascii) (s : string) : string :=
  match s with
  | EmptyString => EmptyString
  | String c s' =>
      if Ascii.eqb c sep then EmptyString else String c (before sep s')
  end.

Fixpoint after (sep : ascii) (s : string) : string :=
  match s with
  | EmptyString => EmptyString
  | String c s' => if Ascii.eqb c sep then s' else after sep s'
  end.

(** A chunk that is not only white space. *)
Definition nonblank (chunk : string) : bool := truthy (strip chunk).

Definition has_colon (chunk : string) : bool := contains ":" (strip chunk).

(** The name of a chunk, trimmed, and the text of its value. *)
Definition name_of (chunk : string) : string :=
  strip (before ":" (strip chunk)).

Definition value_of (chunk : string) : string := after ":" (strip chunk).

(** "If the same name appears twice, the later occurrence overwrites the
    earlier one": the value of the last chunk that carries [name]. *)
Fixpoint last_value (float : string -> option R) (name : string)
    (chunks : list string) : option R :=
  match chunks with
  | [] => None
  | chunk :: rest =>
      match last_value float name rest with
      | Some v => Some v
      | None =>
          if nonblank chunk && String.eqb (name_of chunk) name
          then float (value_of chunk)
          else None
      end
  end.

(** A well-formed input: every chunk that is not blank has a colon and a
    value that [float] reads, and some chunk is not blank. *)
Definition well_formed (float : string -> option R) (raw : string) : Prop :=
  (forall chunk, In chunk (split "," raw) -> nonblank chunk = true ->
     has_colon chunk = true /\ float (value_of chunk) <> None)
  /\ (exists chunk, In chunk (split "," raw) /\ nonblank chunk = true).

(** ** Reading the specification of the estimate *)

(** The command line with another confidence, and with another count of
    current images. *)
Definition with_confidence (args : Namespace) (c : R) : Namespace :=
  {| class_boxes := class_boxes args;
     confidence := c;
     margin := margin args;
     base_rate := base_rate args;
     current_images := current_images args |}.

Definition with_current_images (args : Namespace) (n : option Z)
  : Namespace :=
  {| class_boxes := class_boxes args;
     confidence := confidence args;
     margin := margin args;
     base_rate := base_rate args;
     current_images := n |}.

(** "ceil(required_boxes / instances_per_image)" for every class, as the
    lines of the report. *)
Definition count_lines (boxes_needed : R) (classes : dict R) : list line :=
  map (fun '(name, boxes_per_image) =>
         ClassCountLine name (Zceil (boxes_needed / boxes_per_image)))
      classes.

(** "The maximum across all per-class recommended image counts". *)
Definition is_max_count (boxes_needed : R) (classes : dict R) (m : Z)
  : Prop :=
  (exists name boxes_per_image,
     In (name, boxes_per_image) classes
     /\ m = Zceil (boxes_needed / boxes_per_image))
  /\ (forall name boxes_per_image,
        In (name, boxes_per_image) classes ->
        (Zceil (boxes_needed / boxes_per_image) <= m)%Z).

(** The first part of the report, up to the recommendation. *)
Definition report (args : Namespace) (classes : dict R)
    (confidence z boxes_needed : R) (recommended : Z) : list line :=
  ([TargetLine (margin args) confidence z (base_rate args);
    RequiredBoxesLine (Zceil boxes_needed);
    ImagesHeaderLine]
   ++ count_lines boxes_needed classes
   ++ [RecommendedLine recommended])%list.


(** The command line of the examples: one class with one box per image,
    margin 0.05, base rate 0.5. *)
Definition header_args (confidence : R) (current_images : option Z)
  : Namespace :=
  {| class_boxes := "header:1";
     confidence := confidence;
     margin := 0.05;
     base_rate := 0.5;
     current_images := current_images |}.


(** The ways in which a chunk stops the loop: it is not blank, and it
    has no colon or its value is not a number. *)
Definition bad_chunk (float : string -> option R) (chunk : string) : Prop :=
  nonblank chunk = true
  /\ (has_colon chunk = false
      \/ has_colon chunk = true /\ float (value_of chunk) = None).

(** ** Enclosures

    What the numeric bounds on [inv_cdf] are computed with: repeated
    squaring, in the reals and in fixed point with the scale [S] and
    rounding down, and the polynomials of [normal_dist_inv_cdf] by their
    lists of coefficients. *)






(** ** Reading the order of the classes *)

(** The names of the chunks that are not blank, in the order of the
    input, and a list without its repetitions, every element staying
    where it stands first. *)
Definition names_of (chunks : list string) : list string :=
  map name_of (filter nonblank chunks).

Definition first_occurrences (names : list string) : list string :=
  rev (nodup string_dec (rev names)).

(** A key enters a list of keys at the end, unless it is there. *)
Definition add_key (ks : list string) (k : string) : list string :=
  if in_dec string_dec k ks then ks else (ks ++ [k])%list.





(** ** Reading the outcome of a run *)



(** ** The image column: [scripts/load_parquet_metadata.py] and
    [scripts/load_raw.py]

    A cell of the image column of a parquet file is [None], the bytes of
    the image, or a dictionary that holds them under ["bytes"], beside
    other keys such as ["path"]. *)

#[warnings="-register-all"] Inductive pyval : Type :=
| PyNone
| PyBytes (b : list Init.Byte.byte)
| PyStr (s : string)
| PyDict (d : list (string * pyval)).

Inductive outcome (A : Type) : Type :=
| Value (a : A)
| KeyError (key : string)
| TypeError.

Arguments Value {A} a.
Arguments KeyError {A} key.
Arguments TypeError {A}.

(** [len(v)]: [None] has no length. *)
Definition py_len (v : pyval) : outcome nat :=
  match v with
  | PyNone => TypeError
  | PyBytes b => Value (List.length b)
  | PyStr s => Value (String.length s)
  | PyDict d => Value (List.length d)
  end.

(** The truth value of [v]: [None] and what is empty are false. *)
Definition py_truthy (v : pyval) : bool :=
  match v with
  | PyNone | PyBytes [] | PyStr EmptyString | PyDict [] => false
  | _ => true
  end.

(** [get_image_size], lines 18-23 of [load_parquet_metadata.py]. *)
Definition get_image_size (image_data : pyval) : outcome nat :=
  match image_data with
  | PyDict d =>
      match dict_get d "bytes" with
      | Some v => py_len v
      | None => if py_truthy image_data then py_len image_data else Value 0%nat
      end
  | _ => if py_truthy image_data then py_len image_data else Value 0%nat
  end.

(** The function applied to the image column at line 52 of
    [load_raw.py]: [x['bytes'] if isinstance(x, dict) else x]. *)
Definition image_bytes (x : pyval) : outcome pyval :=
  match x with
  | PyDict d =>
      match dict_get d "bytes" with
      | Some v => Value v
      | None => KeyError "bytes"
      end
  | _ => Value x
  end.

(** ** Basic facts about the comparisons *)

Lemma ltb_true x y : ltb x y = true <-> x < y.
Proof. unfold ltb; destruct (Rlt_dec x y); split; intros; try easy. Qed.

Lemma ltb_false x y : ltb x y = false <-> y <= x.
Proof.
  unfold ltb; destruct (Rlt_dec x y); split; intros; try easy; lra.
Qed.

Lemma leb_true x y : leb x y = true <-> x <= y.
Proof. unfold leb; destruct (Rle_dec x y); split; intros; try easy. Qed.

Lemma leb_false x y : leb x y = false <-> y < x.
Proof.
  unfold leb; destruct (Rle_dec x y); split; intros; try easy; lra.
Qed.

Lemma in_unit_true x : in_unit x = true <-> 0 < x < 1.
Proof.
  unfold in_unit. rewrite andb_true_iff, !ltb_true. tauto.
Qed.

Lemma in_unit_false x : in_unit x = false <-> ~ (0 < x < 1).
Proof.
  rewrite <- in_unit_true. destruct (in_unit x); split; intros; easy.
Qed.

Lemma raises_Ok {A} (a : A) : ~ raises (Ok a).
Proof. intros [e He]; discriminate. Qed.

Lemma raises_Raise {A} (e : exn) : raises (@Raise A e).
Proof. now exists e. Qed.

#[local] Hint Resolve raises_Raise : core.

(** ** Required boxes *)

Lemma required_boxes_ok z E p :
  0 < E < 1 -> 0 < p < 1 ->
  required_boxes z E p = Ok ((z ^ 2 * p * (1 - p)) / E ^ 2).
Proof.
  intros HE Hp. unfold required_boxes.
  apply in_unit_true in HE, Hp. now rewrite HE, Hp.
Qed.


Lemma sq_pos z : z <> 0 -> 0 < z ^ 2.
Proof. intros Hz. nra. Qed.

Lemma div_nonneg a b : 0 <= a -> 0 < b -> 0 <= a / b.
Proof.
  intros Ha Hb. apply Rmult_le_pos; [exact Ha|].
  left. now apply Rinv_0_lt_compat.
Qed.

Lemma required_boxes_exn z E p e :
  required_boxes z E p = Raise e ->
  e = ValueError_margin \/ e = ValueError_base_rate.
Proof.
  unfold required_boxes.
  destruct (in_unit E); simpl; [destruct (in_unit p); simpl|];
    intros H; inversion H; auto.
Qed.




(** ** Margin from boxes *)





(** ** Monotonicity *)






(** ** Strings *)

Lemma split1_contains sep s :
  contains sep s = true -> split1 sep s = [before sep s; after sep s].
Proof.
  induction s as [|c s IH]; simpl; [discriminate|].
  destruct (Ascii.eqb c sep); simpl; [reflexivity|].
  intros H. now rewrite (IH H).
Qed.

Lemma split_no_sep sep s : contains sep s = false -> split sep s = [s].
Proof.
  induction s as [|c s IH]; simpl; [reflexivity|].
  destruct (Ascii.eqb c sep); simpl; [discriminate|].
  intros H. now rewrite (IH H).
Qed.

Lemma dict_set_not_nil {V} (d : dict V) k v : dict_set d k v <> [].
Proof.
  destruct d as [|[k' v'] d]; simpl; [discriminate|].
  destruct (String.eqb k' k); discriminate.
Qed.

Lemma dict_get_set {V} (d : dict V) k v k' :
  dict_get (dict_set d k v) k' =
  if String.eqb k k' then Some v else dict_get d k'.
Proof.
  induction d as [|[k0 v0] d IH]; simpl.
  - reflexivity.
  - destruct (String.eqb k0 k) eqn:E0; simpl.
    + apply String.eqb_eq in E0; subst k0.
      destruct (String.eqb k k'); reflexivity.
    + rewrite IH. destruct (String.eqb k0 k') eqn:E1; [|reflexivity].
      apply String.eqb_eq in E1; subst k0.
      rewrite String.eqb_sym in E0. now rewrite E0.
Qed.

Lemma keys_dict_set {V} (d : dict V) k v :
  keys (dict_set d k v) =
  if in_dec string_dec k (keys d) then keys d else (keys d ++ [k])%list.
Proof.
  induction d as [|[k0 v0] d IH]; simpl; [reflexivity|].
  destruct (String.eqb k0 k) eqn:E0; simpl.
  - apply String.eqb_eq in E0; subst k0.
    destruct (string_dec k k); [reflexivity|contradiction].
  - apply String.eqb_neq in E0. unfold keys in *. rewrite IH.
    destruct (string_dec k0 k); [contradiction|].
    destruct (in_dec string_dec k (map fst d)); reflexivity.
Qed.

Lemma NoDup_dict_set {V} (d : dict V) k v :
  NoDup (keys d) -> NoDup (keys (dict_set d k v)).
Proof.
  intros H. rewrite keys_dict_set.
  destruct (in_dec string_dec k (keys d)) as [Hin|Hin]; [exact H|].
  apply NoDup_rev in H. rewrite <- (rev_involutive (keys d ++ [k])).
  apply NoDup_rev. rewrite rev_app_distr. simpl.
  constructor; [|exact H]. now rewrite <- in_rev.
Qed.

(** ** The parser *)

Section ParsingFacts.

Variable float : string -> option R.

Lemma parse_chunks_blank chunk rest entries :
  nonblank chunk = false ->
  parse_chunks float (chunk :: rest) entries = parse_chunks float rest entries.
Proof. unfold nonblank. intros H. simpl. now rewrite H. Qed.

Lemma parse_chunks_no_colon chunk rest entries :
  nonblank chunk = true -> has_colon chunk = false ->
  parse_chunks float (chunk :: rest) entries
  = Raise (ValueError_pair (strip chunk)).
Proof.
  unfold nonblank, has_colon. intros H1 H2. simpl. now rewrite H1, H2.
Qed.

Lemma parse_chunks_pair chunk rest entries :
  nonblank chunk = true -> has_colon chunk = true ->
  parse_chunks float (chunk :: rest) entries =
  match float (value_of chunk) with
  | Some v => parse_chunks float rest (dict_set entries (name_of chunk) v)
  | None => Raise (ValueError_float (value_of chunk))
  end.
Proof.
  unfold nonblank, has_colon. intros H1 H2. simpl. rewrite H1, H2. simpl.
  now rewrite (split1_contains _ _ H2).
Qed.

Lemma parse_chunks_raises chunks entries :
  raises (parse_chunks float chunks entries)
  <-> exists chunk, In chunk chunks /\ bad_chunk float chunk.
Proof.
  revert entries. induction chunks as [|chunk rest IH]; intros entries.
  - simpl. split.
    + intros H. now apply raises_Ok in H.
    + intros [c [[] _]].
  - destruct (nonblank chunk) eqn:Hb.
    + destruct (has_colon chunk) eqn:Hc.
      * rewrite parse_chunks_pair by assumption.
        destruct (float (value_of chunk)) as [v|] eqn:Hf.
        -- rewrite IH. split.
           ++ intros [c [Hin Hbad]]. exists c. split; [now right|exact Hbad].
           ++ intros [c [[->|Hin] Hbad]].
              ** destruct Hbad as [_ [H|[_ H]]]; congruence.
              ** now exists c.
        -- split; [intros _|auto].
           exists chunk. split; [now left|]. split; auto.
      * rewrite parse_chunks_no_colon by assumption.
        split; [intros _|auto].
        exists chunk. split; [now left|]. split; auto.
    + rewrite parse_chunks_blank by assumption. rewrite IH. split.
      * intros [c [Hin Hbad]]. exists c. split; [now right|exact Hbad].
      * intros [c [[->|Hin] Hbad]].
        -- destruct Hbad as [H _]; congruence.
        -- now exists c.
Qed.

Lemma parse_chunks_exn chunks entries e :
  parse_chunks float chunks entries = Raise e ->
  exists chunk, In chunk chunks /\ nonblank chunk = true
    /\ (has_colon chunk = false /\ e = ValueError_pair (strip chunk)
        \/ has_colon chunk = true /\ float (value_of chunk) = None
           /\ e = ValueError_float (value_of chunk)).
Proof.
  revert entries. induction chunks as [|chunk rest IH]; intros entries.
  - discriminate.
  - destruct (nonblank chunk) eqn:Hb.
    + destruct (has_colon chunk) eqn:Hc.
      * rewrite parse_chunks_pair by assumption.
        destruct (float (value_of chunk)) as [v|] eqn:Hf.
        -- intros H. destruct (IH _ H) as [c [Hin Hc']].
           exists c. split; [now right|exact Hc'].
        -- intros H. inversion_clear H. exists chunk.
           split; [now left|]. split; [exact Hb|]. right. auto.
      * rewrite parse_chunks_no_colon by assumption.
        intros H. inversion_clear H. exists chunk.
        split; [now left|]. split; [exact Hb|]. left. auto.
    + rewrite parse_chunks_blank by assumption.
      intros H. destruct (IH _ H) as [c [Hin Hc']].
      exists c. split; [now right|exact Hc'].
Qed.

Lemma parse_chunks_nil chunks entries d :
  parse_chunks float chunks entries = Ok d ->
  (d = [] <-> entries = []
              /\ forall chunk, In chunk chunks -> nonblank chunk = false).
Proof.
  revert entries. induction chunks as [|chunk rest IH]; intros entries.
  - simpl. intros H; inversion_clear H. split.
    + intros ->. split; [reflexivity|intros c []].
    + now intros [-> _].
  - destruct (nonblank chunk) eqn:Hb.
    + destruct (has_colon chunk) eqn:Hc.
      * rewrite parse_chunks_pair by assumption.
        destruct (float (value_of chunk)) as [v|]; [|discriminate].
        intros H. rewrite (IH _ H). split.
        -- intros [Hs _]. now apply dict_set_not_nil in Hs.
        -- intros [_ Hall]. specialize (Hall chunk (or_introl eq_refl)).
           congruence.
      * rewrite parse_chunks_no_colon by assumption. discriminate.
    + rewrite parse_chunks_blank by assumption.
      intros H. rewrite (IH _ H). split.
      * intros [-> Hall]. split; [reflexivity|].
        intros c [<-|Hin]; auto.
      * intros [-> Hall]. split; [reflexivity|].
        intros c Hin. apply Hall. now right.
Qed.

Lemma parse_chunks_get chunks entries d name :
  parse_chunks float chunks entries = Ok d ->
  dict_get d name =
  match last_value float name chunks with
  | Some v => Some v
  | None => dict_get entries name
  end.
Proof.
  revert entries. induction chunks as [|chunk rest IH]; intros entries.
  - simpl. now intros H; inversion_clear H.
  - destruct (nonblank chunk) eqn:Hb.
    + destruct (has_colon chunk) eqn:Hc.
      * rewrite parse_chunks_pair by assumption.
        destruct (float (value_of chunk)) as [v|] eqn:Hf; [|discriminate].
        intros H. rewrite (IH _ H). simpl.
        destruct (last_value float name rest); [reflexivity|].
        rewrite Hb, dict_get_set. simpl.
        destruct (String.eqb (name_of chunk) name); [now rewrite Hf|].
        reflexivity.
      * rewrite parse_chunks_no_colon by assumption. discriminate.
    + rewrite parse_chunks_blank by assumption.
      intros H. rewrite (IH _ H). simpl.
      destruct (last_value float name rest); [reflexivity|].
      now rewrite Hb.
Qed.

Lemma parse_chunks_NoDup chunks entries d :
  NoDup (keys entries) ->
  parse_chunks float chunks entries = Ok d -> NoDup (keys d).
Proof.
  revert entries. induction chunks as [|chunk rest IH]; intros entries Hnd.
  - simpl. intros H; inversion H; subst d. exact Hnd.
  - destruct (nonblank chunk) eqn:Hb.
    + destruct (has_colon chunk) eqn:Hc.
      * rewrite parse_chunks_pair by assumption.
        destruct (float (value_of chunk)) as [v|]; [|discriminate].
        apply IH. now apply NoDup_dict_set.
      * rewrite parse_chunks_no_colon by assumption. discriminate.
    + rewrite parse_chunks_blank by assumption. now apply IH.
Qed.

End ParsingFacts.

Section ParserSpec.

Variable float : string -> option R.

Lemma parse_raises_iff raw :
  raises (parse_class_boxes float raw) <->
    (exists chunk, In chunk (split "," raw) /\ bad_chunk float chunk)
    \/ (forall chunk, In chunk (split "," raw) -> nonblank chunk = false).
Proof.
  unfold parse_class_boxes.
  destruct (parse_chunks float (split "," raw) []) as [d|e] eqn:Hp; simpl.
  - assert (Hno : ~ exists chunk,
               In chunk (split "," raw) /\ bad_chunk float chunk).
    { rewrite <- (parse_chunks_raises float _ []), Hp. apply raises_Ok. }
    pose proof (parse_chunks_nil float _ _ _ Hp) as Hnil.
    destruct d as [|kv d].
    + split; [intros _|auto]. right. now apply Hnil.
    + split.
      * intros H. now apply raises_Ok in H.
      * intros [H|H]; [contradiction|].
        assert (Hd : kv :: d = []) by (apply Hnil; auto). discriminate.
  - split; [intros _|auto]. left.
    rewrite <- (parse_chunks_raises float _ []), Hp. auto.
Qed.

Lemma parse_class_boxes_ok raw :
  well_formed float raw ->
  exists d, parse_class_boxes float raw = Ok d.
Proof.
  intros [Hall [c0 [Hin0 Hnb0]]].
  destruct (parse_class_boxes float raw) as [d|e] eqn:Hp; [now exists d|].
  exfalso.
  assert (Hr : raises (parse_class_boxes float raw)) by (rewrite Hp; auto).
  apply parse_raises_iff in Hr.
  destruct Hr as [[c [Hin [Hnb Hbad]]]|Hblank].
  - destruct (Hall c Hin Hnb) as [Hc Hf].
    destruct Hbad as [Hbad|[_ Hbad]]; congruence.
  - rewrite (Hblank c0 Hin0) in Hnb0. discriminate.
Qed.

Lemma parse_class_boxes_get raw d name :
  parse_class_boxes float raw = Ok d ->
  NoDup (keys d) /\ d <> []
  /\ dict_get d name = last_value float name (split "," raw).
Proof.
  unfold parse_class_boxes.
  destruct (parse_chunks float (split "," raw) []) as [d'|e] eqn:Hp; simpl;
    [|discriminate].
  destruct d' as [|kv d']; [discriminate|].
  intros H; inversion H; subst d. split; [|split].
  - eapply parse_chunks_NoDup; [|exact Hp]. constructor.
  - discriminate.
  - rewrite (parse_chunks_get float _ _ _ name Hp). simpl.
    now destruct (last_value float name (split "," raw)).
Qed.

End ParserSpec.

(** ** The builtin [float] on the literals of the examples *)

Lemma py_float_0 : py_float "0" = Some 0.
Proof.
  unfold py_float.
  replace (float_literal "0") with (Some (0 # 1)) by reflexivity.
  unfold option_map. f_equal. unfold Q2R, Qnum, Qden. lra.
Qed.

Lemma py_float_1 : py_float "1" = Some 1.
Proof.
  unfold py_float.
  replace (float_literal "1") with (Some (1 # 1)) by reflexivity.
  unfold option_map. f_equal. unfold Q2R, Qnum, Qden. lra.
Qed.

Lemma py_float_2 : py_float "2" = Some 2.
Proof.
  unfold py_float.
  replace (float_literal "2") with (Some (2 # 1)) by reflexivity.
  unfold option_map. f_equal. unfold Q2R, Qnum, Qden. lra.
Qed.

Lemma py_float_minus_2 : py_float "-2" = Some (-2).
Proof.
  unfold py_float.
  replace (float_literal "-2") with (Some (-2 # 1)) by reflexivity.
  unfold option_map. f_equal. unfold Q2R, Qnum, Qden. lra.
Qed.

Lemma py_float_1_5 : py_float "1.5" = Some 1.5.
Proof. reflexivity. Qed.

(** Runs the parser on a literal input, up to the calls of [float]. *)
Ltac run_parser :=
  cbv -[py_float Rplus Rmult Rinv IZR Rdiv Ropp];
  rewrite ?py_float_0, ?py_float_1, ?py_float_2, ?py_float_minus_2,
    ?py_float_1_5.

Example parse_bad :
  parse_class_boxes py_float "bad" = Raise (ValueError_pair "bad").
Proof. reflexivity. Qed.

Example parse_empty :
  parse_class_boxes py_float "" = Raise ValueError_no_pairs.
Proof. reflexivity. Qed.

Example parse_spaces :
  parse_class_boxes py_float " header : 1 ,, body:2 ,"
  = Ok [("header", 1); ("body", 2)].
Proof.
  unfold parse_class_boxes.
  replace (split "," " header : 1 ,, body:2 ,")
    with [" header : 1 "; ""; " body:2 "; ""] by reflexivity.
  rewrite parse_chunks_pair by reflexivity.
  replace (value_of " header : 1 ") with " 1" by reflexivity.
  replace (py_float " 1") with (Some 1).
  - run_parser. reflexivity.
  - symmetry. unfold py_float.
    replace (float_literal " 1") with (Some (1 # 1)) by reflexivity.
    unfold option_map. f_equal. unfold Q2R, Qnum, Qden. lra.
Qed.

(** C4, as the code has it.  Parsing raises exactly when some chunk that
    is not blank lacks a colon, or has a value that [float] does not
    read, or when every chunk is blank; the exception is the one of the
    first such chunk, or the one for the missing pairs.  An empty name is
    not looked at. *)
Theorem parse_class_boxes_raises
    (float : string -> option R) (raw : string) :
  (raises (parse_class_boxes float raw) <->
     (exists chunk, In chunk (split "," raw) /\ nonblank chunk = true
                    /\ has_colon chunk = false)
     \/ (exists chunk, In chunk (split "," raw) /\ nonblank chunk = true
                       /\ has_colon chunk = true
                       /\ float (value_of chunk) = None)
     \/ (forall chunk, In chunk (split "," raw) -> nonblank chunk = false))
  /\ (forall e, parse_class_boxes float raw = Raise e ->
        (exists chunk, e = ValueError_pair chunk)
        \/ (exists value, e = ValueError_float value)
        \/ e = ValueError_no_pairs).
Proof.
  split.
  - rewrite parse_raises_iff. unfold bad_chunk. split.
    + intros [[c [Hin [Hnb [Hc|[Hc Hf]]]]]|H].
      * left. exists c. auto.
      * right; left. exists c. auto.
      * right; right. exact H.
    + intros [[c [Hin [Hnb Hc]]]|[[c [Hin [Hnb [Hc Hf]]]]|H]].
      * left. exists c. auto.
      * left. exists c. auto.
      * right. exact H.
  - intros e. unfold parse_class_boxes.
    destruct (parse_chunks float (split "," raw) []) as [d|e'] eqn:Hp; simpl.
    + destruct d; intros H; inversion H. auto.
    + intros H; inversion H; subst e'.
      destruct (parse_chunks_exn float _ _ _ Hp)
        as [c [_ [_ [[_ He]|[_ [_ He]]]]]]; subst e; eauto.
Qed.

(** C4 as stated fails on ":1": the name is empty after trimming, and
    the parser returns the mapping from the empty name to 1. *)
Lemma parse_accepts_empty_name :
  name_of ":1" = "" /\ parse_class_boxes py_float ":1" = Ok [("", 1)].
Proof.
  split; [reflexivity|]. run_parser. reflexivity.
Qed.

(** C9.  On a well-formed input the parser returns a mapping with
    distinct names in which every name has the value of its last pair,
    and no other name has a value; "header:1,body:1.5" gives header 1.0
    and body 1.5, "header:1,header:2" gives header 2.0. *)
Theorem parse_class_boxes_last_wins :
  (forall (float : string -> option R) (raw : string),
     well_formed float raw ->
     exists d, parse_class_boxes float raw = Ok d
       /\ NoDup (keys d)
       /\ forall name,
            dict_get d name = last_value float name (split "," raw))
  /\ parse_class_boxes py_float "header:1,body:1.5"
     = Ok [("header", 1.0); ("body", 1.5)]
  /\ parse_class_boxes py_float "header:1,header:2" = Ok [("header", 2.0)].
Proof.
  split; [|split].
  - intros float raw Hwf.
    destruct (parse_class_boxes_ok float raw Hwf) as [d Hd].
    exists d. split; [exact Hd|]. split.
    + now destruct (parse_class_boxes_get float raw d "" Hd).
    + intros name.
      now destruct (parse_class_boxes_get float raw d name Hd) as [_ [_ H]].
  - run_parser. repeat f_equal; lra.
  - run_parser. repeat f_equal; lra.
Qed.

Lemma well_formed_header_twice : well_formed py_float "header:1,header:2".
Proof.
  split.
  - intros chunk Hin _.
    replace (split "," "header:1,header:2")
      with ["header:1"; "header:2"] in Hin by reflexivity.
    destruct Hin as [<-|[<-|[]]]; (split; [reflexivity|]).
    + replace (value_of "header:1") with "1" by reflexivity.
      rewrite py_float_1. discriminate.
    + replace (value_of "header:2") with "2" by reflexivity.
      rewrite py_float_2. discriminate.
  - exists "header:1". split; [now left|reflexivity].
Qed.

Lemma parse_class_boxes_last_wins_witness :
  exists d, parse_class_boxes py_float "header:1,header:2" = Ok d
    /\ NoDup (keys d)
    /\ forall name,
         dict_get d name
         = last_value py_float name (split "," "header:1,header:2").
Proof.
  apply (proj1 parse_class_boxes_last_wins).
  exact well_formed_header_twice.
Defined.

(** ** One pair *)





Lemma rstrip_cons_nonspace c b :
  isspace c = false -> rstrip (String c b) = String c (rstrip b).
Proof.
  intros Hc. simpl. rewrite Hc. now destruct (rstrip b).
Qed.



Lemma contains_lstrip sep s :
  contains sep s = false -> contains sep (lstrip s) = false.
Proof.
  induction s as [|c s IH]; simpl; [reflexivity|].
  destruct (isspace c); simpl; [|auto].
  intros H. apply orb_false_iff in H. now apply IH.
Qed.



(** ** The loops of [main] *)

Lemma dict_set_fresh {V} (d : dict V) k v :
  ~ In k (keys d) -> dict_set d k v = (d ++ [(k, v)])%list.
Proof.
  induction d as [|[k0 v0] d IH]; simpl; [reflexivity|].
  intros Hin. destruct (String.eqb k0 k) eqn:E.
  - apply String.eqb_eq in E. tauto.
  - f_equal. apply IH. tauto.
Qed.

Lemma images_per_class_ok n classes per_class :
  NoDup (keys per_class ++ keys classes) ->
  (forall name bpi, In (name, bpi) classes -> 0 < bpi) ->
  images_per_class n classes per_class
  = Ok (per_class
        ++ map (fun '(name, bpi) => (name, Zceil (n / bpi))) classes)%list.
Proof.
  revert per_class.
  induction classes as [|[name bpi] classes IH]; intros per_class Hnd Hpos.
  - simpl. now rewrite app_nil_r.
  - simpl. assert (Hb : leb bpi 0 = false).
    { apply leb_false. apply (Hpos name). now left. }
    rewrite Hb. simpl in Hnd.
    assert (Hfresh : ~ In name (keys per_class)).
    { apply NoDup_remove_2 in Hnd. intros H. apply Hnd.
      apply in_or_app. now left. }
    rewrite dict_set_fresh by exact Hfresh.
    rewrite IH.
    + now rewrite <- app_assoc.
    + unfold keys in *. rewrite map_app. simpl. rewrite <- app_assoc.
      exact Hnd.
    + intros name' bpi' Hin. apply (Hpos name'). now right.
Qed.

Lemma images_per_class_raises n classes per_class :
  raises (images_per_class n classes per_class)
  <-> exists name bpi, In (name, bpi) classes /\ bpi <= 0.
Proof.
  revert per_class.
  induction classes as [|[name bpi] classes IH]; intros per_class; simpl.
  - split; [intros H; now apply raises_Ok in H|intros [? [? [[] _]]]].
  - destruct (leb bpi 0) eqn:Hb.
    + apply leb_true in Hb. split; [intros _|auto].
      exists name, bpi. auto.
    + apply leb_false in Hb. rewrite IH. split.
      * intros [name' [bpi' [Hin Hle]]]. exists name', bpi'. auto.
      * intros [name' [bpi' [[Heq|Hin] Hle]]].
        -- inversion Heq; subst. lra.
        -- exists name', bpi'. auto.
Qed.

Lemma images_per_class_exn n classes per_class e :
  images_per_class n classes per_class = Raise e ->
  exists name, e = SystemExit_boxes_per_image name.
Proof.
  revert per_class.
  induction classes as [|[name bpi] classes IH]; intros per_class; simpl.
  - discriminate.
  - destruct (leb bpi 0); [|apply IH].
    intros H; inversion H. now exists name.
Qed.

Lemma for_each_print {A B} (xs : list (A * B)) (f : A -> B -> line) out :
  for_each xs (fun '(a, b) => print (f a b)) out
  = ((out ++ map (fun '(a, b) => f a b) xs)%list, Ok tt).
Proof.
  revert out. induction xs as [|[a b] xs IH]; intros out; simpl.
  - unfold io_ret. now rewrite app_nil_r.
  - unfold io_bind at 1, print at 1. rewrite IH. now rewrite <- app_assoc.
Qed.

Lemma fold_left_max_ge xs x : (x <= fold_left Z.max xs x)%Z.
Proof.
  revert x. induction xs as [|y xs IH]; intros x; simpl; [lia|].
  specialize (IH (Z.max x y)). lia.
Qed.

Lemma fold_left_max_upper xs x y :
  In y xs -> (y <= fold_left Z.max xs x)%Z.
Proof.
  revert x. induction xs as [|a xs IH]; intros x; simpl; [tauto|].
  intros [->|Hin].
  - pose proof (fold_left_max_ge xs (Z.max x y)). lia.
  - now apply IH.
Qed.

Lemma fold_left_max_in xs x :
  fold_left Z.max xs x = x \/ In (fold_left Z.max xs x) xs.
Proof.
  revert x. induction xs as [|a xs IH]; intros x; simpl; [now left|].
  destruct (IH (Z.max x a)) as [H|H]; [|now right; right].
  rewrite H. destruct (Z.max_spec x a) as [[_ ->]|[_ ->]]; auto.
Qed.

Lemma py_max_spec xs :
  xs <> [] ->
  exists m, py_max xs = Ok m /\ In m xs /\ forall y, In y xs -> (y <= m)%Z.
Proof.
  destruct xs as [|x xs]; [congruence|]. intros _.
  exists (fold_left Z.max xs x). split; [reflexivity|]. split.
  - destruct (fold_left_max_in xs x) as [->|H]; [now left|now right].
  - intros y [<-|Hin].
    + apply fold_left_max_ge.
    + now apply fold_left_max_upper.
Qed.

Lemma truthy_int_nonzero n : n <> 0%Z -> truthy_int (Some n) = Some n.
Proof. now destruct n. Qed.

Lemma current_margins_none args classes z out :
  truthy_int (current_images args) = None ->
  current_margins args classes z out = (out, Ok tt).
Proof. unfold current_margins. now intros ->. Qed.



Lemma current_margins_negative args classes z n out :
  current_images args = Some n -> (n < 0)%Z -> classes <> [] ->
  (forall name bpi, In (name, bpi) classes -> 0 < bpi) ->
  current_margins args classes z out
  = ((out ++ [BlankLine; WithImagesLine n])%list, Raise ValueError_boxes).
Proof.
  intros Hc Hn Hne Hpos. unfold current_margins.
  rewrite Hc, truthy_int_nonzero by lia.
  destruct classes as [|[name bpi] classes]; [congruence|].
  unfold io_bind at 1. unfold print at 1.
  unfold io_bind at 1. unfold print at 1.
  simpl for_each.
  unfold io_bind at 1. unfold io_bind at 1. unfold lift at 1.
  assert (Hb : IZR n * bpi <= 0).
  { assert (0 < bpi) by (apply (Hpos name); now left).
    assert (IZR n < 0) by now apply IZR_lt.
    nra. }
  unfold margin_from_boxes. apply leb_true in Hb. rewrite Hb.
  now rewrite <- app_assoc.
Qed.

(** ** The z-score *)

Lemma z_score_ok c :
  0 < c < 1 ->
  z_score c = Ok (normal_dist_inv_cdf (0.5 + c / 2.0) 0.0 1.0).
Proof.
  intros Hc. unfold z_score, inv_cdf.
  apply in_unit_true in Hc as Hu. rewrite Hu. simpl.
  assert (H0 : leb (0.5 + c / 2.0) 0.0 = false) by (apply leb_false; lra).
  assert (H1 : leb 1.0 (0.5 + c / 2.0) = false) by (apply leb_false; lra).
  now rewrite H0, H1.
Qed.

Lemma z_score_outside c :
  ~ (0 < c < 1) -> z_score c = Raise ValueError_confidence.
Proof.
  intros Hc. unfold z_score. apply in_unit_false in Hc. now rewrite Hc.
Qed.


(** ** The confidence as a percentage *)

Lemma normalize_percentage c :
  1 < c < 100 -> normalize_confidence c = Ok (c / 100.0).
Proof.
  intros Hc. unfold normalize_confidence.
  assert (H1 : ltb 1 c = true) by (apply ltb_true; lra).
  assert (H2 : leb 100 c = false) by (apply leb_false; lra).
  now rewrite H1, H2.
Qed.

Lemma normalize_fraction c : c <= 1 -> normalize_confidence c = Ok c.
Proof.
  intros Hc. unfold normalize_confidence.
  assert (H1 : ltb 1 c = false) by (apply ltb_false; lra).
  now rewrite H1.
Qed.

Lemma normalize_too_large c :
  100 <= c -> normalize_confidence c = Raise SystemExit_percentage.
Proof.
  intros Hc. unfold normalize_confidence.
  assert (H1 : ltb 1 c = true) by (apply ltb_true; lra).
  assert (H2 : leb 100 c = true) by (apply leb_true; lra).
  now rewrite H1, H2.
Qed.

Lemma normalize_cases c :
  c <= 1 /\ normalize_confidence c = Ok c
  \/ 1 < c < 100 /\ normalize_confidence c = Ok (c / 100.0)
  \/ 100 <= c /\ normalize_confidence c = Raise SystemExit_percentage.
Proof.
  destruct (Rle_dec c 1); [left; split; [lra|now apply normalize_fraction]|].
  destruct (Rlt_dec c 100).
  - right; left. split; [lra|apply normalize_percentage; lra].
  - right; right. split; [lra|apply normalize_too_large; lra].
Qed.

(** ** Runs of [main] *)

Section Runs.

Variable float : string -> option R.


Lemma run_normalize_raises args classes e :
  parse_class_boxes float (class_boxes args) = Ok classes ->
  normalize_confidence (confidence args) = Raise e ->
  run float args = ([], Raise e).
Proof.
  intros H1 H2. unfold run, main, io_bind at 1, lift at 1. rewrite H1.
  unfold io_bind at 1, lift at 1. now rewrite H2.
Qed.

Lemma run_z_score_raises args classes c e :
  parse_class_boxes float (class_boxes args) = Ok classes ->
  normalize_confidence (confidence args) = Ok c ->
  z_score c = Raise e ->
  run float args = ([], Raise e).
Proof.
  intros H1 H2 H3. unfold run, main, io_bind at 1, lift at 1. rewrite H1.
  unfold io_bind at 1, lift at 1. rewrite H2.
  unfold io_bind at 1, lift at 1. now rewrite H3.
Qed.

Lemma run_required_boxes_raises args classes c z e :
  parse_class_boxes float (class_boxes args) = Ok classes ->
  normalize_confidence (confidence args) = Ok c ->
  z_score c = Ok z ->
  required_boxes z (margin args) (base_rate args) = Raise e ->
  run float args = ([], Raise e).
Proof.
  intros H1 H2 H3 H4. unfold run, main, io_bind at 1, lift at 1. rewrite H1.
  unfold io_bind at 1, lift at 1. rewrite H2.
  unfold io_bind at 1, lift at 1. rewrite H3.
  unfold io_bind at 1, lift at 1. now rewrite H4.
Qed.

Lemma run_images_raises args classes c z n e :
  parse_class_boxes float (class_boxes args) = Ok classes ->
  normalize_confidence (confidence args) = Ok c ->
  z_score c = Ok z ->
  required_boxes z (margin args) (base_rate args) = Ok n ->
  images_per_class n classes [] = Raise e ->
  run float args = ([], Raise e).
Proof.
  intros H1 H2 H3 H4 H5. unfold run, main, io_bind at 1, lift at 1.
  rewrite H1.
  unfold io_bind at 1, lift at 1. rewrite H2.
  unfold io_bind at 1, lift at 1. rewrite H3.
  unfold io_bind at 1, lift at 1. rewrite H4.
  unfold io_bind at 1, lift at 1. now rewrite H5.
Qed.

Lemma run_estimate args classes c z n :
  parse_class_boxes float (class_boxes args) = Ok classes ->
  normalize_confidence (confidence args) = Ok c ->
  z_score c = Ok z ->
  required_boxes z (margin args) (base_rate args) = Ok n ->
  (forall name bpi, In (name, bpi) classes -> 0 < bpi) ->
  exists m,
    is_max_count n classes m
    /\ run float args
       = current_margins args classes z (report args classes c z n m).
Proof.
  intros H1 H2 H3 H4 Hpos.
  destruct (parse_class_boxes_get float _ _ "" H1) as [Hnd [Hne _]].
  pose (per_class := map (fun '(name, bpi) => (name, Zceil (n / bpi))) classes).
  assert (H5 : images_per_class n classes [] = Ok per_class).
  { rewrite images_per_class_ok; [reflexivity|exact Hnd|exact Hpos]. }
  assert (Hv : values per_class
               = map (fun '(name, bpi) => Zceil (n / bpi)) classes).
  { unfold values, per_class. rewrite map_map.
    apply map_ext. now intros [name bpi]. }
  destruct (py_max_spec (values per_class)) as [m [Hm [Hin Hub]]].
  { rewrite Hv. now destruct classes. }
  exists m. split.
  - split.
    + rewrite Hv in Hin. apply in_map_iff in Hin.
      destruct Hin as [[name bpi] [Heq Hin]]. exists name, bpi. auto.
    + intros name bpi Hin'. apply Hub. rewrite Hv.
      apply in_map_iff. now exists (name, bpi).
  - unfold run, main, io_bind at 1, lift at 1. rewrite H1.
    unfold io_bind at 1, lift at 1. rewrite H2.
    unfold io_bind at 1, lift at 1. rewrite H3.
    unfold io_bind at 1, lift at 1. rewrite H4.
    unfold io_bind at 1, lift at 1. rewrite H5.
    unfold io_bind at 1, lift at 1. rewrite Hm.
    unfold io_bind at 1, print at 1.
    unfold io_bind at 1, print at 1.
    unfold io_bind at 1, print at 1.
    unfold io_bind at 1.
    rewrite (for_each_print per_class ClassCountLine).
    unfold io_bind at 1, print at 1.
    f_equal. unfold report, count_lines, per_class. rewrite map_map.
    simpl. do 4 f_equal. apply map_ext. now intros [name bpi].
Qed.

End Runs.

Lemma margin_from_boxes_exn z p b e :
  margin_from_boxes z p b = Raise e ->
  e = ValueError_boxes \/ e = ValueError_math_domain.
Proof.
  unfold margin_from_boxes, math_sqrt.
  destruct (leb b 0); [intros H; inversion H; auto|].
  destruct (ltb (p * (1 - p) / b) 0); simpl; intros H; inversion H; auto.
Qed.

Lemma margins_loop_exn n z p classes out out' e :
  for_each classes (fun '(name, boxes_per_image) =>
    let boxes := IZR n * boxes_per_image in
    margin <~ lift (margin_from_boxes z p boxes) ;;
    print (MarginLine name margin boxes)) out
  = (out', Raise e) ->
  e = ValueError_boxes \/ e = ValueError_math_domain.
Proof.
  revert out. induction classes as [|[name bpi] classes IH]; intros out.
  - discriminate.
  - simpl. unfold io_bind at 1. unfold io_bind at 1. unfold lift at 1.
    destruct (margin_from_boxes z p (IZR n * bpi)) as [m|e'] eqn:Hm.
    + unfold print at 1. apply IH.
    + intros H; inversion H; subst. exact (margin_from_boxes_exn _ _ _ _ Hm).
Qed.

Lemma current_margins_exn args classes z out out' e :
  current_margins args classes z out = (out', Raise e) ->
  e = ValueError_boxes \/ e = ValueError_math_domain.
Proof.
  unfold current_margins.
  destruct (truthy_int (current_images args)) as [n|]; [|discriminate].
  unfold io_bind at 1. unfold print at 1.
  unfold io_bind at 1. unfold print at 1.
  apply margins_loop_exn.
Qed.

Lemma z_score_exn c e : z_score c = Raise e -> e = ValueError_confidence.
Proof.
  destruct (Rlt_dec 0 c) as [H0|H0]; [destruct (Rlt_dec c 1) as [H1|H1]|].
  - rewrite z_score_ok by lra. discriminate.
  - rewrite z_score_outside by lra. now intros H; inversion H.
  - rewrite z_score_outside by lra. now intros H; inversion H.
Qed.

Lemma images_per_class_positive n classes per_class d :
  images_per_class n classes per_class = Ok d ->
  forall name bpi, In (name, bpi) classes -> 0 < bpi.
Proof.
  intros Hi name bpi Hin.
  destruct (Rlt_dec 0 bpi) as [H0|H0]; [exact H0|exfalso].
  assert (Hr : raises (images_per_class n classes per_class)).
  { apply images_per_class_raises. exists name, bpi. split; [exact Hin|lra]. }
  rewrite Hi in Hr. now apply raises_Ok in Hr.
Qed.

(** Past the parser and the confidence, what a run can raise. *)
Lemma run_exn (float : string -> option R) args classes c e :
  parse_class_boxes float (class_boxes args) = Ok classes ->
  normalize_confidence (confidence args) = Ok c ->
  snd (run float args) = Raise e ->
  e = ValueError_confidence \/ e = ValueError_margin
  \/ e = ValueError_base_rate
  \/ (exists name, e = SystemExit_boxes_per_image name)
  \/ e = ValueError_boxes \/ e = ValueError_math_domain.
Proof.
  intros Hp Hn Hr.
  destruct (z_score c) as [z|e1] eqn:Hz.
  2:{ rewrite (run_z_score_raises float args classes c _ Hp Hn Hz) in Hr.
      simpl in Hr. inversion Hr; subst e1.
      left. exact (z_score_exn _ _ Hz). }
  destruct (required_boxes z (margin args) (base_rate args))
    as [n|e2] eqn:Hb.
  2:{ rewrite (run_required_boxes_raises float args classes c z _
                 Hp Hn Hz Hb) in Hr.
      simpl in Hr. inversion Hr; subst e2.
      destruct (required_boxes_exn _ _ _ _ Hb); auto. }
  destruct (images_per_class n classes []) as [pc|e3] eqn:Hi.
  2:{ rewrite (run_images_raises float args classes c z n _
                 Hp Hn Hz Hb Hi) in Hr.
      simpl in Hr. inversion Hr; subst e3.
      do 3 right. left. exact (images_per_class_exn _ _ _ _ Hi). }
  pose proof (images_per_class_positive _ _ _ _ Hi) as Hpos.
  destruct (run_estimate float args classes c z n Hp Hn Hz Hb Hpos)
    as [m [_ Hrun]].
  rewrite Hrun in Hr.
  destruct (current_margins args classes z (report args classes c z n m))
    as [out' r] eqn:Hcm.
  simpl in Hr; subst r. do 4 right.
  exact (current_margins_exn _ _ _ _ _ _ Hcm).
Qed.


Lemma run_with_percentage (float : string -> option R) args :
  1 < confidence args < 100 ->
  run float args
  = run float (with_confidence args (confidence args / 100.0)).
Proof.
  intros Hc. unfold run, main. simpl.
  rewrite (normalize_percentage (confidence args)) by exact Hc.
  rewrite (normalize_fraction (confidence args / 100.0)) by lra.
  reflexivity.
Qed.

(** C3, as the code has it.  Past the parser, a confidence above 1 is a
    percentage: below 100 it is divided by 100 before the z-score is
    computed, so that the run is the run on the fraction; the run ends
    with "confidence percentage must be less than 100" exactly when the
    confidence is at least 100.  The confidence 1 is not above 1: it is
    kept, and [z_score] refuses it. *)
Theorem confidence_normalization
    (float : string -> option R) (args : Namespace) (classes : dict R) :
  parse_class_boxes float (class_boxes args) = Ok classes ->
  (1 < confidence args < 100 ->
   normalize_confidence (confidence args) = Ok (confidence args / 100.0)
   /\ run float args
      = run float (with_confidence args (confidence args / 100.0)))
  /\ (snd (run float args) = Raise SystemExit_percentage
      <-> 100 <= confidence args)
  /\ (confidence args = 1 ->
      normalize_confidence (confidence args) = Ok 1
      /\ run float args = ([], Raise ValueError_confidence)).
Proof.
  intros Hp. split; [|split].
  - intros Hc. split.
    + now apply normalize_percentage.
    + now apply run_with_percentage.
  - split.
    + intros Hr.
      destruct (normalize_cases (confidence args))
        as [[Hc Hn]|[[Hc Hn]|[Hc Hn]]]; [| |exact Hc].
      * destruct (run_exn float args classes _ _ Hp Hn Hr)
          as [H|[H|[H|[[name H]|[H|H]]]]]; discriminate.
      * destruct (run_exn float args classes _ _ Hp Hn Hr)
          as [H|[H|[H|[[name H]|[H|H]]]]]; discriminate.
    + intros Hc.
      now rewrite (run_normalize_raises float args classes _ Hp
                     (normalize_too_large _ Hc)).
  - intros H1. rewrite H1. split.
    + apply normalize_fraction. lra.
    + apply (run_z_score_raises float args classes 1).
      * exact Hp.
      * rewrite H1. apply normalize_fraction. lra.
      * apply z_score_outside. lra.
Qed.

Lemma parse_header_1 :
  parse_class_boxes py_float "header:1" = Ok [("header", 1)].
Proof. run_parser. reflexivity. Qed.

Lemma confidence_normalization_witness :
  normalize_confidence 95 = Ok (95 / 100.0)
  /\ run py_float (header_args 95 None)
     = run py_float (with_confidence (header_args 95 None) (95 / 100.0)).
Proof.
  apply (proj1 (confidence_normalization py_float (header_args 95 None) _
                  parse_header_1)).
  simpl. lra.
Defined.

(** C3 as stated fails at the confidence 1: it is not divided by 100,
    and the run ends with "confidence must be in (0, 1)". *)
Lemma confidence_one_is_rejected :
  normalize_confidence 1 = Ok 1
  /\ run py_float (header_args 1 None) = ([], Raise ValueError_confidence).
Proof.
  split.
  - apply normalize_fraction. lra.
  - apply (run_z_score_raises py_float _ [("header", 1)] 1).
    + exact parse_header_1.
    + apply normalize_fraction. lra.
    + apply z_score_outside. lra.
Qed.

(** ** The current images *)

Lemma run_zero_current_images (float : string -> option R) args :
  current_images args = Some 0%Z ->
  run float args = run float (with_current_images args None).
Proof.
  intros H0. unfold run, main, current_margins. simpl. now rewrite H0.
Qed.

(** A negative count is refused, by [margin_from_boxes] on the first
    class, after the report has been printed. *)
Lemma run_negative_current_images
    (float : string -> option R) args classes c z n k :
  parse_class_boxes float (class_boxes args) = Ok classes ->
  normalize_confidence (confidence args) = Ok c ->
  z_score c = Ok z ->
  required_boxes z (margin args) (base_rate args) = Ok n ->
  (forall name bpi, In (name, bpi) classes -> 0 < bpi) ->
  current_images args = Some k -> (k < 0)%Z ->
  snd (run float args) = Raise ValueError_boxes.
Proof.
  intros Hp Hn Hz Hb Hpos Hk Hneg.
  destruct (run_estimate float args classes c z n Hp Hn Hz Hb Hpos)
    as [m [_ Hrun]].
  rewrite Hrun.
  destruct (parse_class_boxes_get float _ _ "" Hp) as [_ [Hne _]].
  now rewrite (current_margins_negative args classes z k _ Hk Hneg Hne Hpos).
Qed.

Lemma header_run_estimate c current :
  0 < c < 1 ->
  exists m,
    run py_float (header_args c current)
    = current_margins (header_args c current) [("header", 1)]
        (normal_dist_inv_cdf (0.5 + c / 2.0) 0.0 1.0)
        (report (header_args c current) [("header", 1)] c
           (normal_dist_inv_cdf (0.5 + c / 2.0) 0.0 1.0)
           ((normal_dist_inv_cdf (0.5 + c / 2.0) 0.0 1.0) ^ 2
            * 0.5 * (1 - 0.5) / 0.05 ^ 2)
           m).
Proof.
  intros Hc.
  destruct (run_estimate py_float (header_args c current) [("header", 1)] c
              (normal_dist_inv_cdf (0.5 + c / 2.0) 0.0 1.0)
              ((normal_dist_inv_cdf (0.5 + c / 2.0) 0.0 1.0) ^ 2
               * 0.5 * (1 - 0.5) / 0.05 ^ 2))
    as [m [_ Hrun]].
  - exact parse_header_1.
  - apply normalize_fraction. simpl. lra.
  - now apply z_score_ok.
  - apply required_boxes_ok; simpl; lra.
  - intros name bpi [Heq|[]]. inversion Heq. lra.
  - now exists m.
Qed.

(** C5, on the code: with [--current-images 0] the run prints the report
    of a run without the option and ends without an exception, while
    [--current-images -1] ends with "boxes must be positive". *)
Theorem zero_current_images_is_silent :
  run py_float (header_args 0.95 (Some 0%Z))
  = run py_float (header_args 0.95 None)
  /\ snd (run py_float (header_args 0.95 (Some 0%Z))) = Ok tt
  /\ snd (run py_float (header_args 0.95 (Some (-1)%Z)))
     = Raise ValueError_boxes.
Proof.
  split; [|split].
  - now apply run_zero_current_images.
  - destruct (header_run_estimate 0.95 (Some 0%Z)) as [m Hrun]; [lra|].
    rewrite Hrun. now rewrite current_margins_none.
  - apply (run_negative_current_images py_float _ [("header", 1)] 0.95
             (normal_dist_inv_cdf (0.5 + 0.95 / 2.0) 0.0 1.0)
             ((normal_dist_inv_cdf (0.5 + 0.95 / 2.0) 0.0 1.0) ^ 2
              * 0.5 * (1 - 0.5) / 0.05 ^ 2) (-1)%Z).
    + exact parse_header_1.
    + apply normalize_fraction. simpl. lra.
    + apply z_score_ok. lra.
    + apply required_boxes_ok; simpl; lra.
    + intros name bpi [Heq|[]]. inversion Heq. lra.
    + reflexivity.
    + lia.
Qed.

(** ** Values that are not positive *)



(** ** Enclosures of the exponential and of the logarithm *)












(** ** The polynomials of [normal_dist_inv_cdf] *)








(** ** The z-scores of the examples *)





(** ** The recommendation *)









(** * Further properties of the estimator *)

(** ** The base rate *)






(** ** The margin and the number of boxes *)








(** ** Blank chunks *)

Lemma split_app sep a b :
  split sep (a ++ String sep b) = (split sep a ++ split sep b)%list.
Proof.
  induction a as [|c a IH]; simpl.
  - now rewrite Ascii.eqb_refl.
  - destruct (Ascii.eqb c sep); rewrite IH; [reflexivity|].
    destruct (split sep a) as [|h t] eqn:Hs; [|reflexivity].
    destruct a; simpl in Hs; [discriminate|].
    destruct (Ascii.eqb a sep); [discriminate|].
    destruct (split sep a0); discriminate.
Qed.

Lemma parse_chunks_app float pre post entries :
  parse_chunks float (pre ++ post) entries
  = (e <- parse_chunks float pre entries ;; parse_chunks float post e).
Proof.
  revert entries. induction pre as [|chunk pre IH]; intros entries.
  - reflexivity.
  - simpl app. destruct (nonblank chunk) eqn:Hb.
    + destruct (has_colon chunk) eqn:Hc.
      * rewrite !parse_chunks_pair by assumption.
        destruct (float (value_of chunk)); [apply IH|reflexivity].
      * now rewrite !parse_chunks_no_colon by assumption.
    + rewrite !parse_chunks_blank by assumption. apply IH.
Qed.

Lemma parse_chunks_skip float w rest entries :
  nonblank w = false ->
  parse_chunks float (w :: rest) entries = parse_chunks float rest entries.
Proof. apply parse_chunks_blank. Qed.

Lemma parse_chunks_insert_blank float pre w post entries :
  nonblank w = false ->
  parse_chunks float (pre ++ w :: post) entries
  = parse_chunks float (pre ++ post) entries.
Proof.
  intros Hw. rewrite !parse_chunks_app.
  destruct (parse_chunks float pre entries); simpl; [|reflexivity].
  now apply parse_chunks_blank.
Qed.

(** X5.  Chunks of white space do not count: a blank chunk [w] (white
    space without a comma, possibly empty) before the input, after it or
    between two of its parts leaves the result of the parser, mapping or
    exception, as it is.  So a trailing or a doubled comma is harmless. *)
Theorem blank_chunks_are_ignored
    (float : string -> option R) (w a b : string) :
  contains "," w = false -> nonblank w = false ->
  parse_class_boxes float (w ++ "," ++ a) = parse_class_boxes float a
  /\ parse_class_boxes float (a ++ "," ++ w) = parse_class_boxes float a
  /\ parse_class_boxes float (a ++ "," ++ w ++ "," ++ b)
     = parse_class_boxes float (a ++ "," ++ b).
Proof.
  intros Hc Hw. unfold parse_class_boxes.
  change ("," ++ a) with (String "," a).
  change ("," ++ w) with (String "," w).
  change ("," ++ w ++ "," ++ b) with (String "," (w ++ String "," b)).
  change ("," ++ b) with (String "," b).
  rewrite !split_app, (split_no_sep _ _ Hc).
  split; [|split].
  - simpl app. now rewrite parse_chunks_blank.
  - rewrite (parse_chunks_insert_blank float (split "," a) w [] [] Hw).
    now rewrite app_nil_r.
  - simpl app. now rewrite parse_chunks_insert_blank.
Qed.

Lemma blank_chunks_are_ignored_witness :
  parse_class_boxes py_float (" " ++ "," ++ "header:1")
  = parse_class_boxes py_float "header:1"
  /\ parse_class_boxes py_float ("header:1" ++ "," ++ " ")
     = parse_class_boxes py_float "header:1"
  /\ parse_class_boxes py_float ("header:1" ++ "," ++ " " ++ "," ++ "body:2")
     = parse_class_boxes py_float ("header:1" ++ "," ++ "body:2").
Proof.
  apply (blank_chunks_are_ignored py_float " " "header:1" "body:2");
    reflexivity.
Defined.

(** ** The first error *)

Lemma parse_chunks_good float chunks entries :
  (forall c, In c chunks -> ~ bad_chunk float c) ->
  exists d, parse_chunks float chunks entries = Ok d.
Proof.
  intros Hgood.
  destruct (parse_chunks float chunks entries) as [d|e] eqn:Hp;
    [now exists d|].
  exfalso.
  assert (Hr : raises (parse_chunks float chunks entries))
    by (rewrite Hp; auto).
  apply parse_chunks_raises in Hr. destruct Hr as [c [Hin Hbad]].
  exact (Hgood c Hin Hbad).
Qed.

(** X6.  The parser stops at the first chunk it cannot take: when the
    chunks before [c] are all acceptable and [c] is not blank, a [c]
    without a colon raises "Expected name:value pair, got '{c}'" with the
    trimmed chunk, and a [c] whose value [float] does not read raises
    the error of [float] on that value, whatever comes after [c]. *)
Theorem first_bad_chunk_decides
    (float : string -> option R) (raw : string)
    (pre post : list string) (c : string) :
  split "," raw = (pre ++ c :: post)%list ->
  (forall x, In x pre -> ~ bad_chunk float x) ->
  nonblank c = true ->
  (has_colon c = false ->
   parse_class_boxes float raw = Raise (ValueError_pair (strip c)))
  /\ (has_colon c = true -> float (value_of c) = None ->
      parse_class_boxes float raw = Raise (ValueError_float (value_of c))).
Proof.
  intros Hs Hpre Hb. unfold parse_class_boxes. rewrite Hs.
  rewrite parse_chunks_app.
  destruct (parse_chunks_good float pre [] Hpre) as [d Hd].
  rewrite Hd. unfold bind. split.
  - intros Hc. now rewrite parse_chunks_no_colon.
  - intros Hc Hf. rewrite parse_chunks_pair by assumption. now rewrite Hf.
Qed.

Lemma first_bad_chunk_decides_witness :
  parse_class_boxes py_float "a:1,bad,c:x" = Raise (ValueError_pair "bad").
Proof.
  apply (first_bad_chunk_decides py_float "a:1,bad,c:x" ["a:1"] ["c:x"] "bad");
    try reflexivity.
  intros x [<-|[]] [_ [H|[_ H]]].
  - discriminate H.
  - replace (value_of "a:1") with "1" in H by reflexivity.
    rewrite py_float_1 in H. discriminate H.
Defined.

(** ** The names of the classes *)

Lemma split_no_sep_in sep s c : In c (split sep s) -> contains sep c = false.
Proof.
  revert c. induction s as [|x s IH]; intros c; simpl.
  - intros [<-|[]]. reflexivity.
  - destruct (Ascii.eqb x sep) eqn:Hx.
    + intros [<-|Hin]; [reflexivity|now apply IH].
    + destruct (split sep s) as [|h t] eqn:Hs.
      * intros [<-|[]]. simpl. now rewrite Hx.
      * intros [<-|Hin].
        -- simpl. rewrite Hx. apply IH. now left.
        -- apply IH. now right.
Qed.

Lemma contains_rstrip sep s :
  contains sep s = false -> contains sep (rstrip s) = false.
Proof.
  induction s as [|c s IH]; simpl; [reflexivity|].
  intros H. apply orb_false_iff in H. destruct H as [Hc Hs].
  specialize (IH Hs).
  destruct (rstrip s) as [|d t].
  - destruct (isspace c); simpl; [reflexivity|now rewrite Hc].
  - simpl in *. now rewrite Hc.
Qed.

Lemma contains_strip sep s :
  contains sep s = false -> contains sep (strip s) = false.
Proof.
  intros H. unfold strip. now apply contains_rstrip, contains_lstrip.
Qed.

Lemma contains_before sep s : contains sep (before sep s) = false.
Proof.
  induction s as [|c s IH]; simpl; [reflexivity|].
  destruct (Ascii.eqb c sep) eqn:Hc; simpl; [reflexivity|].
  now rewrite Hc.
Qed.

Lemma contains_before_other sep other s :
  contains other s = false -> contains other (before sep s) = false.
Proof.
  induction s as [|c s IH]; simpl; [reflexivity|].
  intros H. apply orb_false_iff in H. destruct H as [Hc Hs].
  destruct (Ascii.eqb c sep); simpl; [reflexivity|].
  now rewrite Hc, IH.
Qed.

Lemma rstrip_cons c s :
  rstrip s <> "" -> rstrip (String c s) = String c (rstrip s).
Proof. intros H. simpl. destruct (rstrip s); [contradiction|reflexivity]. Qed.

Lemma rstrip_cons_blank c s :
  rstrip s = "" ->
  rstrip (String c s) = if isspace c then "" else String c "".
Proof. intros H. simpl. now rewrite H. Qed.

Lemma rstrip_idem s : rstrip (rstrip s) = rstrip s.
Proof.
  induction s as [|c s IH]; [reflexivity|].
  destruct (rstrip s) as [|d t] eqn:Hr.
  - rewrite (rstrip_cons_blank c s Hr).
    destruct (isspace c) eqn:Hc; [reflexivity|].
    simpl. now rewrite Hc.
  - assert (Hne : rstrip s <> "") by (rewrite Hr; discriminate).
    rewrite (rstrip_cons c s Hne), Hr.
    rewrite rstrip_cons; rewrite IH; [reflexivity|discriminate].
Qed.

Lemma lstrip_head s :
  lstrip s = "" \/ exists c t, lstrip s = String c t /\ isspace c = false.
Proof.
  induction s as [|c s IH]; simpl; [now left|].
  destruct (isspace c) eqn:Hc; [exact IH|].
  right. now exists c, s.
Qed.

Lemma strip_idem s : strip (strip s) = strip s.
Proof.
  unfold strip. destruct (lstrip_head s) as [->|[c [t [-> Hc]]]].
  - reflexivity.
  - rewrite (rstrip_cons_nonspace c t Hc).
    simpl lstrip. rewrite Hc.
    rewrite (rstrip_cons_nonspace c (rstrip t) Hc).
    now rewrite rstrip_idem.
Qed.

Lemma name_of_clean chunk :
  contains "," chunk = false ->
  strip (name_of chunk) = name_of chunk
  /\ contains "," (name_of chunk) = false
  /\ contains ":" (name_of chunk) = false.
Proof.
  intros Hc. unfold name_of. split; [|split].
  - apply strip_idem.
  - apply contains_strip, contains_before_other. now apply contains_strip.
  - apply contains_strip, contains_before.
Qed.

Lemma parse_chunks_keys float chunks entries d k :
  parse_chunks float chunks entries = Ok d ->
  In k (keys d) ->
  In k (keys entries)
  \/ exists chunk, In chunk chunks /\ nonblank chunk = true
                   /\ k = name_of chunk.
Proof.
  revert entries. induction chunks as [|chunk rest IH]; intros entries.
  - simpl. intros H; inversion H. now left.
  - destruct (nonblank chunk) eqn:Hb.
    + destruct (has_colon chunk) eqn:Hc.
      * rewrite parse_chunks_pair by assumption.
        destruct (float (value_of chunk)) as [v|]; [|discriminate].
        intros Hp Hin. destruct (IH _ Hp Hin) as [Hk|[c [Hc1 Hc2]]].
        -- rewrite keys_dict_set in Hk.
           destruct (in_dec string_dec (name_of chunk) (keys entries));
             [now left|].
           apply in_app_or in Hk. destruct Hk as [Hk|[<-|[]]]; [now left|].
           right. exists chunk. split; [now left|auto].
        -- right. exists c. split; [now right|exact Hc2].
      * rewrite parse_chunks_no_colon by assumption. discriminate.
    + rewrite parse_chunks_blank by assumption.
      intros Hp Hin. destruct (IH _ Hp Hin) as [Hk|[c [Hc1 Hc2]]].
      * now left.
      * right. exists c. split; [now right|exact Hc2].
Qed.

(** X7.  The names of the mapping that the parser returns are clean:
    each one is the trimmed name of some chunk of the input, so it has no
    white space at either end, no comma and no colon. *)
Theorem parsed_names_are_clean
    (float : string -> option R) (raw : string) (d : dict R) (k : string) :
  parse_class_boxes float raw = Ok d ->
  In k (keys d) ->
  (exists chunk, In chunk (split "," raw) /\ nonblank chunk = true
                 /\ k = name_of chunk)
  /\ strip k = k /\ contains "," k = false /\ contains ":" k = false.
Proof.
  unfold parse_class_boxes.
  destruct (parse_chunks float (split "," raw) []) as [d'|e] eqn:Hp; simpl;
    [|discriminate].
  destruct d' as [|kv d']; [discriminate|].
  intros H Hin. inversion H; subst d.
  destruct (parse_chunks_keys float _ _ _ k Hp Hin) as [[]|[c [Hc [Hb Hk]]]].
  split; [now exists c|]. subst k.
  apply name_of_clean. now apply (split_no_sep_in "," raw).
Qed.

Lemma parsed_names_are_clean_witness :
  (exists chunk, In chunk (split "," " header : 1 ,, body:2 ,")
                 /\ nonblank chunk = true /\ "header" = name_of chunk)
  /\ strip "header" = "header" /\ contains "," "header" = false
  /\ contains ":" "header" = false.
Proof.
  apply (parsed_names_are_clean py_float " header : 1 ,, body:2 ,"
           [("header", 1); ("body", 2)] "header").
  - exact parse_spaces.
  - simpl. now left.
Defined.

(** ** The order of the classes *)

Lemma parse_chunks_keys_fold float chunks entries d :
  parse_chunks float chunks entries = Ok d ->
  keys d = fold_left add_key (names_of chunks) (keys entries).
Proof.
  revert entries. induction chunks as [|chunk rest IH]; intros entries.
  - simpl. now intros H; inversion H.
  - unfold names_of. simpl filter. destruct (nonblank chunk) eqn:Hb.
    + destruct (has_colon chunk) eqn:Hc.
      * rewrite parse_chunks_pair by assumption.
        destruct (float (value_of chunk)) as [v|]; [|discriminate].
        intros Hp. rewrite (IH _ Hp). simpl.
        now rewrite keys_dict_set.
      * rewrite parse_chunks_no_colon by assumption. discriminate.
    + rewrite parse_chunks_blank by assumption. apply IH.
Qed.

Lemma nodup_drop_repeated (a : string) X Y :
  In a Y ->
  nodup string_dec (X ++ a :: Y) = nodup string_dec (X ++ Y).
Proof.
  intros Ha. induction X as [|x X IH]; simpl.
  - destruct (in_dec string_dec a Y); [reflexivity|contradiction].
  - rewrite IH.
    destruct (in_dec string_dec x (X ++ a :: Y)) as [H1|H1];
      destruct (in_dec string_dec x (X ++ Y)) as [H2|H2];
      try reflexivity; exfalso.
    + apply H2. apply in_app_or in H1. apply in_or_app.
      destruct H1 as [H1|[<-|H1]]; auto.
    + apply H1. apply in_app_or in H2. apply in_or_app.
      destruct H2 as [H2|H2]; [now left|now right; right].
Qed.

Lemma fold_add_key_first_occurrences names ks :
  NoDup ks ->
  fold_left add_key names ks = first_occurrences (ks ++ names).
Proof.
  revert ks. induction names as [|a names IH]; intros ks Hnd.
  - simpl. rewrite app_nil_r. unfold first_occurrences.
    rewrite nodup_fixed_point by now apply NoDup_rev.
    now rewrite rev_involutive.
  - simpl. unfold add_key at 2.
    destruct (in_dec string_dec a ks) as [Hin|Hin].
    + rewrite (IH ks Hnd). unfold first_occurrences. f_equal.
      rewrite !rev_app_distr. simpl. rewrite <- app_assoc. simpl.
      rewrite nodup_drop_repeated; [reflexivity|now rewrite <- in_rev].
    + rewrite IH.
      * now rewrite <- app_assoc.
      * apply NoDup_rev in Hnd. rewrite <- (rev_involutive (ks ++ [a])).
        apply NoDup_rev. rewrite rev_app_distr. simpl.
        constructor; [now rewrite <- in_rev|exact Hnd].
Qed.

(** X8.  The classes keep the order of the input: the names of the
    mapping that the parser returns are the trimmed names of the chunks
    that are not blank, each at its first appearance; a later pair for a
    name changes its value and not its place. *)
Theorem parsed_names_keep_first_order
    (float : string -> option R) (raw : string) (d : dict R) :
  parse_class_boxes float raw = Ok d ->
  keys d = first_occurrences (names_of (split "," raw)).
Proof.
  unfold parse_class_boxes.
  destruct (parse_chunks float (split "," raw) []) as [d'|e] eqn:Hp; simpl;
    [|discriminate].
  destruct d' as [|kv d']; [discriminate|].
  intros H; inversion H; subst d.
  rewrite (parse_chunks_keys_fold float _ _ _ Hp).
  now rewrite fold_add_key_first_occurrences by constructor.
Qed.

Lemma parse_reordered :
  parse_class_boxes py_float "b:1,a:2,b:2" = Ok [("b", 2); ("a", 2)].
Proof. run_parser. reflexivity. Qed.

Lemma parsed_names_keep_first_order_witness :
  keys [("b", 2); ("a", 2)]
  = first_occurrences (names_of (split "," "b:1,a:2,b:2")).
Proof.
  apply (parsed_names_keep_first_order py_float "b:1,a:2,b:2").
  exact parse_reordered.
Defined.

(** ** The sign of the z-score *)














(** ** The outcome of a run *)


Lemma required_boxes_nonneg z E p n : required_boxes z E p = Ok n -> 0 <= n.
Proof.
  unfold required_boxes.
  destruct (in_unit E) eqn:HE; simpl; [|discriminate].
  destruct (in_unit p) eqn:Hp; simpl; [|discriminate].
  apply in_unit_true in HE, Hp. intros H; inversion_clear H.
  apply div_nonneg; [|apply sq_pos; lra].
  assert (0 <= z ^ 2) by apply pow2_ge_0.
  assert (0 <= p * (1 - p)) by (apply Rmult_le_pos; lra).
  rewrite Rmult_assoc. now apply Rmult_le_pos.
Qed.

Section Outcomes.

Variable float : string -> option R.



End Outcomes.







(** ** The counts of the report *)










(** ** Enough images *)











(** ** The order of the checks *)





(** * The image column *)

Lemma size_of_keys (d : list (string * pyval)) :
  (if py_truthy (PyDict d) then py_len (PyDict d) else Value 0%nat)
  = Value (List.length d).
Proof. now destruct d. Qed.

(** X17.  The two loaders on one cell of the image column.  Whenever the
    cell that [load_raw.py] stores is a string of bytes, [get_image_size]
    returns the length of these bytes, for a bare cell (an empty one
    included) as for a dictionary with the key ["bytes"].  Where
    [load_raw.py] raises a [KeyError], on a dictionary without that key,
    [get_image_size] raises nothing and returns the number of keys of
    the dictionary. *)
Theorem size_of_stored_bytes (x : pyval) :
  (forall b, image_bytes x = Value (PyBytes b) ->
     get_image_size x = Value (List.length b))
  /\ (forall key, image_bytes x = KeyError key ->
        exists d, x = PyDict d /\ dict_get d "bytes" = None
                  /\ get_image_size x = Value (List.length d)).
Proof.
  split.
  - intros b. destruct x as [| b' | s | d]; simpl; try discriminate.
    + intros H; inversion H; subst b'. now destruct b.
    + destruct (dict_get d "bytes") as [v|]; [|discriminate].
      intros H; inversion H; subst v. reflexivity.
  - intros key. destruct x as [| b' | s | d]; simpl; try discriminate.
    destruct (dict_get d "bytes") as [v|] eqn:Hd; [discriminate|].
    intros _. exists d. split; [reflexivity|]. split; [exact Hd|].
    apply size_of_keys.
Qed.

Lemma size_of_stored_bytes_witness :
  get_image_size
    (PyDict [("bytes", PyBytes [Init.Byte.x89; Init.Byte.x50]);
             ("path", PyNone)])
  = Value 2%nat.
Proof.
  apply (proj1 (size_of_stored_bytes _) [Init.Byte.x89; Init.Byte.x50]).
  reflexivity.
Defined.
